(** * Bass-to-Arduino bridge: the spectral analyzer, the gain controller
      and the driver loop of [script.py]

    The script captures mono 16-bit audio in frames of [CHUNK] samples,
    reduces each frame to the mean FFT magnitude of the bass band, maps
    that energy to a byte through a fixed or a self-tuning gain, and writes
    the byte to a serial port.

    Numbers are modelled as the interpreter has them: Python [int] as [Z],
    Python [float] / [np.float64] as the primitive binary64 [float], with
    the IEEE operations of [PrimFloat] and their specification in
    [SpecFloat].  The module-level variables [gain], [gainTimer] and
    [prevVal] form a record that is threaded through a state-and-exception
    monad; an exception leaves the state as mutated so far. *)

From Stdlib Require Import Ascii String.
From Stdlib Require Import ZArith List Bool Lia QArith Qround.
From Stdlib Require Import Floats.
Import ListNotations.

Set Warnings "-inexact-float".
#[local] Open Scope Z_scope.

(** ** Python numbers *)

Inductive exn : Type :=
| ValueError
| OverflowError
| SerialException
| KeyboardInterrupt
| IOError.

Inductive result (A : Type) : Type :=
| Ok (a : A)
| Raise (e : exn).
Arguments Ok {A} a.
Arguments Raise {A} e.

(** The nearest binary64 value of an integer, ties to even. *)
Definition Z2SF (z : Z) : spec_float := binary_normalize prec emax z 0 false.
Definition Z2float (z : Z) : float := SF2Prim (Z2SF z).

(** [float(n)] for a Python int: the nearest double, [OverflowError] when
    the rounded value does not fit. *)
Definition py_float (z : Z) : result float :=
  match Z2SF z with
  | S754_infinity _ => Raise OverflowError
  | x => Ok (SF2Prim x)
  end.

(** The integer part of a finite value [(-1)^s * m * 2^e]; a negative
    shift amount of [Z.shiftl] shifts right, so the fraction is cut off. *)
Definition SFtrunc (x : spec_float) : Z :=
  match x with
  | S754_finite s m e => cond_Zopp s (Z.shiftl (Zpos m) e)
  | _ => 0
  end.

(** [int(x)] for a float: truncation toward zero, [ValueError] on NaN,
    [OverflowError] on an infinity. *)
Definition py_int (x : float) : result Z :=
  match Prim2SF x with
  | S754_nan => Raise ValueError
  | S754_infinity _ => Raise OverflowError
  | sx => Ok (SFtrunc sx)
  end.

(** [np.clip(x, lo, hi)] on a float64 scalar: [min(max(x, lo), hi)] where
    both steps hand a NaN through. *)
Definition np_clip (x lo hi : float) : float :=
  let t := if is_nan x then x else if (lo <? x)%float then x else lo in
  if is_nan t then t else if (t <? hi)%float then t else hi.

(** [n.to_bytes(1, byteorder='big')]: one unsigned byte, [OverflowError]
    outside 0..255. *)
Definition to_bytes1 (n : Z) : result Z :=
  if (0 <=? n) && (n <=? 255) then Ok n else Raise OverflowError.

(** The exact rational value of a finite float (0 for the others). *)
Definition SF2Q (x : spec_float) : Q :=
  match x with
  | S754_finite s m (Zneg k) => Qmake (cond_Zopp s (Zpos m)) (2 ^ k)%positive
  | S754_finite s m e => inject_Z (cond_Zopp s (Zpos m * 2 ^ e))
  | _ => 0%Q
  end.
Definition float2Q (x : float) : Q := SF2Q (Prim2SF x).

(** ** Configuration constants (script.py, lines 61-69) *)

Definition CHUNK : Z := 1024.
Definition RATE : Z := 44100.
Definition BASS_LOW : Z := 30.
Definition BASS_HIGH : Z := 200.
Definition timerGainMaxHigh : Z := 60.
Definition timerGainMaxMid : Z := 120.
Definition timerGainMaxLow : Z := 90.
Definition default_gain : float := 0.006%float.

(** ** The module-level state and its monad *)

Record GainState : Type := mkState {
  gain : float;
  gainTimer : Z;
  prevVal : Z
}.

(** State at the top of the first iteration in adaptive mode. *)
Definition initial_state : GainState :=
  {| gain := default_gain; gainTimer := 0; prevVal := 0 |}.

Definition M (A : Type) : Type := GainState -> result A * GainState.

Definition ret {A} (a : A) : M A := fun st => (Ok a, st).
Definition raise {A} (e : exn) : M A := fun st => (Raise e, st).
Definition bind {A B} (m : M A) (k : A -> M B) : M B :=
  fun st =>
    match m st with
    | (Ok a, st') => k a st'
    | (Raise e, st') => (Raise e, st')
    end.
Definition lift {A} (r : result A) : M A := fun st => (r, st).
Definition read {A} (field : GainState -> A) : M A := fun st => (Ok (field st), st).
Definition set_gain (g : float) : M unit :=
  fun st => (Ok tt, {| gain := g; gainTimer := gainTimer st; prevVal := prevVal st |}).
Definition set_gainTimer (t : Z) : M unit :=
  fun st => (Ok tt, {| gain := gain st; gainTimer := t; prevVal := prevVal st |}).
Definition set_prevVal (v : Z) : M unit :=
  fun st => (Ok tt, {| gain := gain st; gainTimer := gainTimer st; prevVal := v |}).

Declare Scope py_scope.
Delimit Scope py_scope with py.
Notation "x <- m ;; k" := (bind m (fun x => k))
  (at level 61, m at next level, right associativity) : py_scope.
Notation "m ;; k" := (bind m (fun _ => k))
  (at level 61, right associativity) : py_scope.
#[local] Open Scope py_scope.

(** ** Gain controller (script.py, lines 114-140) *)

(** [int(np.clip(bass_energy * gain, 0, 255))], lines 115 and 140. *)
Definition scaled_value (bass_energy g : float) : result Z :=
  py_int (np_clip (bass_energy * g)%float 0%float 255%float).

(** [gainTimer += 1], then past [limit] the gain is changed by [adjust],
    which receives the incremented timer and the current gain. *)
Definition count_and_correct (limit : Z) (adjust : Z -> float -> result float) : M unit :=
  t <- read gainTimer ;;
  set_gainTimer (t + 1) ;;
  t <- read gainTimer ;;
  if limit <? t then
    g <- read gain ;;
    g' <- lift (adjust t g) ;;
    set_gain g'
  else ret tt.

(** [gain -= step * (float(gainTimer*2) / timerGainMaxHigh)]. *)
Definition scaled_decrement (step : float) (t : Z) (g : float) : result float :=
  match py_float (t * 2) with
  | Ok f => Ok (g - step * (f / Z2float timerGainMaxHigh))%float
  | Raise e => Raise e
  end.

(** [gain += step]. *)
Definition fixed_increment (step : float) (_ : Z) (g : float) : result float :=
  Ok (g + step)%float.

(** The [if adaptiveGain:] branch, lines 115-138. *)
Definition adaptive_branch (bass_energy : float) : M Z :=
  g <- read gain ;;
  val <- lift (scaled_value bass_energy g) ;;
  set_prevVal val ;;
  prev <- read prevVal ;;
  (if (prev <? 205) && (205 <? val) then set_gainTimer 0
   else if (val <? 195) && (195 <? prev) then set_gainTimer 0
   else ret tt) ;;
  (if 230 <? val then
     count_and_correct timerGainMaxHigh (scaled_decrement 0.0008%float)
   else if (205 <? val) && (val <? 231) then
     count_and_correct timerGainMaxHigh (scaled_decrement 0.0004%float)
   else if (80 <? val) && (val <? 195) then
     count_and_correct timerGainMaxMid (fixed_increment 0.0005%float)
   else if (50 <? bass_energy)%float && (val <? 81) then
     count_and_correct timerGainMaxLow (fixed_increment 0.009%float)
   else set_gainTimer 0) ;;
  ret val.

(** The [else:] branch, line 140. *)
Definition fixed_branch (bass_energy : float) : M Z :=
  g <- read gain ;;
  lift (scaled_value bass_energy g).

Definition controller (adaptiveGain : bool) (bass_energy : float) : M Z :=
  if adaptiveGain then adaptive_branch bass_energy else fixed_branch bass_energy.

(** ** Driver loop (script.py, lines 97-154) *)

(** What one pass of [while True:] meets in its environment.  [Frame]:
    PortAudio delivered a frame whose bass energy (lines 102-111) is
    [bass_energy]; [overflowed] tells whether it flagged an input overflow
    for that read, [write_ok] whether [ser.write] will accept the byte.
    [Interrupt]: Ctrl+C arrives while the read blocks.  [ReadFailed]:
    PortAudio reports another error than an overflow.
    [FrameInterrupted]: a frame is delivered and Ctrl+C arrives later in
    the pass, once the controller has run, while lines 142-143 print and
    write.  (A Ctrl+C between two statements of the controller is not
    among the events.) *)
Inductive event : Type :=
| Frame (bass_energy : float) (overflowed : bool) (write_ok : bool)
| Interrupt
| ReadFailed
| FrameInterrupted (bass_energy : float) (overflowed : bool).

(** PyAudio's [Stream.read(num_frames, exception_on_overflow)]: an input
    overflow is raised as [IOError] only when [exception_on_overflow] is
    set, otherwise the data read is returned all the same; any other
    PortAudio error is raised as [IOError]. *)
Definition stream_read (exception_on_overflow : bool) (ev : event) : M float :=
  match ev with
  | Frame bass_energy overflowed _ | FrameInterrupted bass_energy overflowed =>
      if exception_on_overflow then
        if overflowed then raise IOError else ret bass_energy
      else ret bass_energy
  | Interrupt => raise KeyboardInterrupt
  | ReadFailed => raise IOError
  end.

(** [ser.write(b)]: pyserial raises [SerialException] when the port cannot
    take the byte. *)
Definition ser_write (ev : event) (b : Z) : M Z :=
  match ev with
  | Frame _ _ true => ret b
  | FrameInterrupted _ _ => raise KeyboardInterrupt
  | _ => raise SerialException
  end.

(** The body of [while True:], lines 100-143; its value is the byte sent.
    Line 101 reads with [exception_on_overflow=False]. *)
Definition loop_body (adaptiveGain : bool) (ev : event) : M Z :=
  bass_energy <- stream_read false ev ;;
  val <- controller adaptiveGain bass_energy ;;
  b <- lift (to_bytes1 val) ;;
  ser_write ev b.

(** How the [try:] statement was left: [Running] while the event list has
    not been used up, [Stopped] through [except KeyboardInterrupt], [Crashed]
    when another exception passes the handler (the [finally:] clause runs
    in both cases and the process ends). *)
Inductive status : Type :=
| Running
| Stopped
| Crashed (e : exn).

Record run : Type := mkRun {
  run_status : status;
  run_state : GainState;
  run_sent : list Z
}.

Fixpoint run_loop (adaptiveGain : bool) (evs : list event) (st : GainState)
    (sent : list Z) : run :=
  match evs with
  | [] => mkRun Running st sent
  | ev :: evs' =>
      match loop_body adaptiveGain ev st with
      | (Ok b, st') => run_loop adaptiveGain evs' st' (sent ++ [b])
      | (Raise KeyboardInterrupt, st') => mkRun Stopped st' sent
      | (Raise e, st') => mkRun (Crashed e) st' sent
      end
  end.

(** ** Spectral analyzer (script.py, lines 102-111) *)

(** [np.arange(0, n)]. *)
Definition arange (n : Z) : list Z := map Z.of_nat (seq 0 (Z.to_nat n)).

(** [np.fft.rfftfreq(n, d)]: [arange(0, n//2 + 1) * (1.0 / (n * d))]. *)
Definition rfftfreq (n : Z) (d : float) : list float :=
  let val := (1.0 / (Z2float n * d))%float in
  map (fun i => (Z2float i * val)%float) (arange (n / 2 + 1)).

(** Line 106: [freqs = np.fft.rfftfreq(len(samples), 1.0 / RATE)]. *)
Definition freqs (n : Z) : list float := rfftfreq n (1.0 / Z2float RATE)%float.

(** Line 110: [(freqs >= BASS_LOW) & (freqs <= BASS_HIGH)], elementwise. *)
Definition in_band (f : float) : bool :=
  (Z2float BASS_LOW <=? f)%float && (f <=? Z2float BASS_HIGH)%float.
Definition mask (n : Z) : list bool := map in_band (freqs n).

(** [a[mask]]: the entries of [a] at the positions where [mask] is true. *)
Definition bool_index {A} (a : list A) (mask : list bool) : list A :=
  map snd (filter fst (combine mask a)).

(** Bins of a frame of [n] samples that the mask keeps. *)
Definition selected_bins (n : Z) : list Z := bool_index (arange (n / 2 + 1)) (mask n).

Section Analyzer.
(** The NumPy routines of lines 105-111, which the script only calls:
    the Hann window, the real-input FFT (complex bins as pairs), the
    complex modulus and the mean of an array. *)
Variable np_hanning : nat -> list float.
Variable np_fft_rfft : list float -> list (float * float).
Variable np_abs : float * float -> float.
Variable np_mean : list float -> float.

(** [samples * np.hanning(len(samples))], elementwise. *)
Definition windowed (samples : list float) : list float :=
  map (fun p => (fst p * snd p)%float) (combine samples (np_hanning (length samples))).

(** Lines 105 and 107. *)
Definition magnitude (samples : list float) : list float :=
  map np_abs (np_fft_rfft (windowed samples)).

(** Lines 102-111: the int16 samples of the frame as floats, the
    windowed spectrum, the band mask and the mean over it. *)
Definition bass_energy (frame : list Z) : float :=
  let samples := map Z2float frame in
  np_mean (bool_index (magnitude samples) (mask (Z.of_nat (length samples)))).
End Analyzer.

(** ** The band as the specification words it *)



(** Frequency that line 106 gives bin [i] of a frame of [n] samples. *)
Definition bin_frequency (n i : Z) : float :=
  (Z2float i * (1.0 / (Z2float n * (1.0 / Z2float RATE))))%float.

(** ** Start-up: port discovery and mode selection (script.py, lines 32-49 and 81) *)

(** Python strings are taken as byte strings; the case conversions act on
    the ASCII letters, which is all the tests below depend on. *)

(** What [serial.tools.list_ports.comports()] reports for a port; the
    manufacturer may be [None]. *)
Record ListPortInfo : Type := mkPort {
  device : string;
  description : string;
  manufacturer : option string
}.

(** [pat in s]: [pat] occurs in [s] as a substring. *)
Fixpoint str_in (pat s : string) : bool :=
  String.prefix pat s ||
  match s with
  | EmptyString => false
  | String _ s' => str_in pat s'
  end.

Definition ascii_lower (c : ascii) : ascii :=
  let n := nat_of_ascii c in
  if (65 <=? n)%nat && (n <=? 90)%nat then ascii_of_nat (n + 32) else c.

Definition ascii_upper (c : ascii) : ascii :=
  let n := nat_of_ascii c in
  if (97 <=? n)%nat && (n <=? 122)%nat then ascii_of_nat (n - 32) else c.

(** [s.lower()]. *)
Fixpoint lower (s : string) : string :=
  match s with
  | EmptyString => EmptyString
  | String c s' => String (ascii_lower c) (lower s')
  end.

(** [s.capitalize()]: first character upper case, the rest lower case. *)
Definition capitalize (s : string) : string :=
  match s with
  | EmptyString => EmptyString
  | String c s' => String (ascii_upper c) (lower s')
  end.

(** [str(x)] for a string or [None]. *)
Definition py_str (x : option string) : string :=
  match x with
  | Some s => s
  | None => "None"%string
  end.

(** The test of lines 40-41. *)
Definition is_arduino (port : ListPortInfo) : bool :=
  str_in "Arduino" (description port)
  || str_in "wchusbserial" (lower (device port))
  || str_in "ttyACM" (device port)
  || str_in "Arduino" (py_str (manufacturer port)).

(** Lines 32-43: the device of the first port that passes the test. *)
Fixpoint find_arduino (ports : list ListPortInfo) : option string :=
  match ports with
  | [] => None
  | port :: rest => if is_arduino port then Some (device port) else find_arduino rest
  end.

(** Line 81: [str(input(...)).capitalize() == "Y"]. *)
Definition adaptiveGain_answer (answer : string) : bool :=
  String.eqb (capitalize answer) "Y".

(** ** The candidate value as the specification words it *)

(** Rounding to the nearest integer, ties to even (Python's [round]). *)
Definition round_half_even (q : Q) : Z :=
  let f := Qfloor q in
  match Qcompare (q - inject_Z f) (1 # 2) with
  | Lt => f
  | Gt => f + 1
  | Eq => if Z.even f then f else f + 1
  end.

Definition clamp (lo hi v : Z) : Z := Z.max lo (Z.min hi v).

(** [clamp(round(energy * gain), 0, 255)]. *)
Definition spec_candidate (energy g : float) : Z :=
  clamp 0 255 (round_half_even (float2Q (energy * g))).

(** The state with another previous output. *)
Definition with_prevVal (p : Z) (st : GainState) : GainState :=
  {| gain := gain st; gainTimer := gainTimer st; prevVal := p |}.

(** ** The zones of the adaptive controller, as the specification words them *)

(** The five cases of the zone classification and, for each, the state
    the specification expects after the frame.  The code is compared with
    these below. *)
Inductive zone : Type := HighHigh | High | Mid | LowAudible | Quiet.

Definition in_zone (z : zone) (energy : float) (val : Z) : Prop :=
  match z with
  | HighHigh => 230 < val
  | High => 205 < val <= 230
  | Mid => 80 < val < 195
  | LowAudible => (50 <? energy)%float = true /\ val <= 80
  | Quiet => ~ 230 < val /\ ~ 205 < val <= 230 /\ ~ 80 < val < 195 /\
             ~ ((50 <? energy)%float = true /\ val <= 80)
  end.

Definition zone_update (z : zone) (val : Z) (st : GainState) : GainState :=
  let t := gainTimer st + 1 in
  match z with
  | HighHigh =>
      {| gain := if 60 <? t then (gain st - 0.0008 * (Z2float (t * 2) / 60))%float
                 else gain st;
         gainTimer := t; prevVal := val |}
  | High =>
      {| gain := if 60 <? t then (gain st - 0.0004 * (Z2float (t * 2) / 60))%float
                 else gain st;
         gainTimer := t; prevVal := val |}
  | Mid =>
      {| gain := if 120 <? t then (gain st + 0.0005)%float else gain st;
         gainTimer := t; prevVal := val |}
  | LowAudible =>
      {| gain := if 90 <? t then (gain st + 0.009)%float else gain st;
         gainTimer := t; prevVal := val |}
  | Quiet => {| gain := gain st; gainTimer := 0; prevVal := val |}
  end.

(** ** Shapes of binary64 values *)

(** What rounding to binary64 can return for a value of sign [s]. *)
Inductive rounded (s : bool) : spec_float -> Prop :=
| rounded_zero : rounded s (S754_zero s)
| rounded_finite m e : rounded s (S754_finite s m e)
| rounded_infinity : rounded s (S754_infinity s).

(** Zeros and finite numbers of sign [s]. *)
Inductive finite_sf (s : bool) : spec_float -> Prop :=
| finite_sf_zero : finite_sf s (S754_zero s)
| finite_sf_finite m e : finite_sf s (S754_finite s m e).

(** * Facts about binary64 arithmetic *)

#[local] Arguments binary_round_aux : simpl never.

Lemma SFcompare_refl x : x <> S754_nan -> SFcompare x x = Some Eq.
Proof.
  destruct x as [s|s| |s m e]; simpl; try congruence; intros _.
  - now destruct s.
  - rewrite Z.compare_refl, Pos.compare_cont_refl. now destruct s.
Qed.

Lemma is_nan_spec x :
  is_nan x = match Prim2SF x with S754_nan => true | _ => false end.
Proof.
  unfold is_nan. rewrite eqb_spec. unfold SFeqb.
  destruct (Prim2SF x) eqn:E; try reflexivity;
    rewrite SFcompare_refl by congruence; reflexivity.
Qed.

Lemma digits2_pos_bound m : Zpos m < 2 ^ Zpos (digits2_pos m).
Proof.
  induction m as [m IH|m IH|]; simpl digits2_pos.
  - rewrite Pos2Z.inj_succ, Z.pow_succ_r by lia. lia.
  - rewrite Pos2Z.inj_succ, Z.pow_succ_r by lia. lia.
  - reflexivity.
Qed.

Lemma valid_mantissa_bound s m e :
  valid_binary (S754_finite s m e) = true -> Zpos m < 2 ^ 53.
Proof.
  simpl. unfold bounded, canonical_mantissa, fexp.
  intros H. apply andb_true_iff in H. destruct H as [H _].
  apply Z.eqb_eq in H.
  assert (Hd : Zpos (digits2_pos m) <= 53) by (unfold prec in H; lia).
  pose proof (digits2_pos_bound m).
  assert (2 ^ Zpos (digits2_pos m) <= 2 ^ 53) by (apply Z.pow_le_mono_r; lia).
  lia.
Qed.

Lemma SFcompare_antisym a b :
  SFcompare b a = option_map CompOpp (SFcompare a b).
Proof.
  destruct a as [s|s| |s m e], b as [s'|s'| |s' m' e']; simpl;
    try reflexivity; try (destruct s; reflexivity); try (destruct s'; reflexivity);
    try (destruct s, s'; reflexivity).
  destruct s, s'; simpl; try reflexivity;
    rewrite (Z.compare_antisym e e'); destruct (e ?= e'); simpl; try reflexivity;
    pose proof (Pos.compare_cont_antisym m m' Eq) as H; simpl in H;
    rewrite H; reflexivity.
Qed.

Lemma ltb_false_leb x y :
  is_nan x = false -> is_nan y = false ->
  (x <? y)%float = false -> (y <=? x)%float = true.
Proof.
  rewrite !is_nan_spec, ltb_spec, leb_spec. unfold SFltb, SFleb.
  rewrite (SFcompare_antisym (Prim2SF x) (Prim2SF y)).
  destruct (Prim2SF x) eqn:Ex, (Prim2SF y) eqn:Ey; try discriminate; intros _ _;
    destruct (SFcompare _ _) as [[]|] eqn:C; simpl; try congruence; simpl in C; try discriminate.
Qed.

Lemma leb_ltb_false x y :
  (x <=? y)%float = true -> (y <? x)%float = false.
Proof.
  rewrite ltb_spec, leb_spec. unfold SFltb, SFleb.
  rewrite (SFcompare_antisym (Prim2SF x) (Prim2SF y)).
  destruct (SFcompare _ _) as [[]|]; simpl; congruence.
Qed.

(** Rounding a non-negative mantissa never produces a NaN. *)
Lemma shr_1_nonneg mrs : 0 <= shr_m mrs -> 0 <= shr_m (shr_1 mrs).
Proof.
  destruct mrs as [m r s]. simpl.
  destruct m as [|p|p]; [ | destruct p | ]; simpl; lia.
Qed.

Lemma iter_pos_inv {A} (P : A -> Prop) (f : A -> A) :
  (forall x, P x -> P (f x)) -> forall p x, P x -> P (iter_pos f p x).
Proof.
  intros Hf. induction p as [p IH|p IH|]; simpl; intros x Hx; auto.
Qed.

Lemma shr_nonneg mrs e n :
  0 <= shr_m mrs -> 0 <= shr_m (fst (shr mrs e n)).
Proof.
  intros H. destruct n as [|p|p]; simpl; auto.
  apply (iter_pos_inv (fun r => 0 <= shr_m r)); auto using shr_1_nonneg.
Qed.

Lemma shr_fexp_nonneg m e l :
  0 <= m -> 0 <= shr_m (fst (shr_fexp prec emax m e l)).
Proof.
  intros H. unfold shr_fexp. apply shr_nonneg.
  destruct l as [|[]]; exact H.
Qed.

Lemma round_nearest_even_nonneg m l : 0 <= m -> 0 <= round_nearest_even m l.
Proof.
  destruct l as [|[]]; simpl; try destruct (Z.even m); lia.
Qed.

Lemma binary_round_aux_rounded s m e l :
  0 <= m -> rounded s (binary_round_aux prec emax s m e l).
Proof.
  intros H. unfold binary_round_aux.
  pose proof (shr_fexp_nonneg m e l H) as H1.
  destruct (shr_fexp prec emax m e l) as [mrs' e'] eqn:E1. simpl in H1.
  pose proof (shr_fexp_nonneg _ e' loc_Exact
                (round_nearest_even_nonneg _ (loc_of_shr_record mrs') H1)) as H2.
  destruct (shr_fexp prec emax (round_nearest_even _ _) e' loc_Exact) as [mrs'' e''].
  simpl in H2.
  destruct (shr_m mrs'') as [|p|p]; try lia.
  - constructor.
  - destruct (e'' <=? emax - prec); constructor.
Qed.

Lemma digits2_pos_lower p : 2 ^ (Zpos (digits2_pos p) - 1) <= Zpos p.
Proof.
  induction p as [p IH|p IH|]; simpl digits2_pos.
  - rewrite Pos2Z.inj_succ.
    replace (Z.succ (Zpos (digits2_pos p)) - 1) with (Z.succ (Zpos (digits2_pos p) - 1)) by lia.
    rewrite Z.pow_succ_r by lia. lia.
  - rewrite Pos2Z.inj_succ.
    replace (Z.succ (Zpos (digits2_pos p)) - 1) with (Z.succ (Zpos (digits2_pos p) - 1)) by lia.
    rewrite Z.pow_succ_r by lia. lia.
  - simpl. lia.
Qed.

Lemma digits2_pos_iter_xO p k :
  digits2_pos (Pos.iter xO p k) = (digits2_pos p + k)%positive.
Proof.
  induction k as [|k IH] using Pos.peano_ind.
  - simpl. lia.
  - rewrite Pos.iter_succ. simpl. rewrite IH. lia.
Qed.

Lemma binary_round_aux_canonical s m e :
  Zpos (digits2_pos m) = prec -> emin <= e <= emax - prec ->
  binary_round_aux prec emax s (Zpos m) e loc_Exact = S754_finite s m e.
Proof.
  intros Hd He.
  assert (Hs : shr_fexp prec emax (Zpos m) e loc_Exact
               = ({| shr_m := Zpos m; shr_r := false; shr_s := false |}, e)).
  { unfold shr_fexp, fexp. simpl Zdigits2. rewrite Hd.
    replace (Z.max (prec + e - prec) emin - e) with 0 by lia.
    reflexivity. }
  unfold binary_round_aux. rewrite Hs. simpl. rewrite Hs. simpl.
  replace (e <=? 971) with true; [reflexivity|].
  symmetry. apply Z.leb_le. unfold emax, prec in He. lia.
Qed.

Lemma Z2SF_small z :
  0 < z < 2 ^ 53 -> exists m e, Z2SF z = S754_finite false m e.
Proof.
  intros Hz. destruct z as [|p|p]; try lia.
  unfold Z2SF, binary_normalize, binary_round.
  pose proof (digits2_pos_lower p) as Hl.
  assert (Hd : Zpos (digits2_pos p) <= 53).
  { destruct (Z_le_gt_dec (Zpos (digits2_pos p)) 53) as [|Hgt]; [assumption|].
    assert (2 ^ 53 <= 2 ^ (Zpos (digits2_pos p) - 1)) by (apply Z.pow_le_mono_r; lia).
    lia. }
  rewrite Z.add_0_r. unfold fexp.
  replace (Z.max (Zpos (digits2_pos p) - prec) emin) with (Zpos (digits2_pos p) - prec)
    by (unfold prec, emin, emax; lia).
  unfold shl_align.
  destruct (Zpos (digits2_pos p) - prec - 0) as [|k|k] eqn:Ek.
  - rewrite binary_round_aux_canonical; [eauto | unfold prec in *; lia | unfold emin, emax, prec; lia].
  - unfold prec in Ek. lia.
  - rewrite binary_round_aux_canonical; [eauto | | unfold prec, emin, emax in *; lia].
    rewrite digits2_pos_iter_xO. unfold prec in *. lia.
Qed.

Lemma py_float_small z : 0 <= z < 2 ^ 53 -> py_float z = Ok (Z2float z).
Proof.
  intros Hz. unfold py_float, Z2float.
  destruct (Z.eq_dec z 0) as [->|Hn]; [reflexivity|].
  destruct (Z2SF_small z) as (m & e & E); [lia|]. now rewrite E.
Qed.

Lemma clip_byte_cases x :
  is_nan x = false ->
  ((x <=? 0)%float = true /\ np_clip x 0 255 = 0%float) \/
  ((255 <=? x)%float = true /\ np_clip x 0 255 = 255%float) \/
  ((0 <? x)%float = true /\ (x <? 255)%float = true /\ np_clip x 0 255 = x).
Proof.
  intros Hn. unfold np_clip. rewrite Hn.
  destruct (0 <? x)%float eqn:H0.
  - rewrite Hn. destruct (x <? 255)%float eqn:H1.
    + right; right; auto.
    + right; left. split; [apply ltb_false_leb; auto | reflexivity].
  - left. split; [apply ltb_false_leb; auto | reflexivity].
Qed.

Lemma compare_cont_Eq_lt p q :
  Pos.compare_cont Eq p q = Lt -> Zpos p < Zpos q.
Proof. intros H. change (Pos.compare p q = Lt) in H. apply Pos.compare_lt_iff in H. apply Pos2Z.pos_lt_pos. exact H. Qed.

Lemma py_int_between x :
  (0 <? x)%float = true -> (x <? 255)%float = true ->
  exists v, py_int x = Ok v /\ 0 <= v < 255 /\ v = Qfloor (float2Q x).
Proof.
  rewrite !ltb_spec. unfold py_int, float2Q.
  pose proof (Prim2SF_valid x) as Hv.
  change (Prim2SF 0) with (S754_zero false).
  change (Prim2SF 255) with (S754_finite false 8972014882652160 (-45)).
  destruct (Prim2SF x) as [s|s| |s m e]; try discriminate.
  - destruct s; discriminate.
  - destruct s; try discriminate. intros _. cbv beta iota delta [SFltb SFcompare].
    apply valid_mantissa_bound in Hv.
    assert (Hsh : forall k, e = Zneg k ->
              Z.shiftl (Zpos m) e = Zpos m / Zpos (2 ^ k)).
    { intros k ->. change (Z.shiftl (Zpos m) (Zneg k)) with (Z.shiftr (Zpos m) (Zpos k)).
      rewrite Z.shiftr_div_pow2 by lia. now rewrite Pos2Z.inj_pow. }
    destruct (e ?= -45) eqn:Ec; try discriminate.
    + apply Z.compare_eq in Ec. subst e.
      destruct (Pos.compare_cont Eq m 8972014882652160) eqn:Em; try discriminate.
      intros _. apply compare_cont_Eq_lt in Em.
      exists (Z.shiftl (Zpos m) (-45)). split; [reflexivity|].
      rewrite (Hsh 45%positive eq_refl). split; [|reflexivity].
      split; [apply Z.div_pos; lia|].
      apply Z.div_lt_upper_bound; [lia|].
      change (Zpos (2 ^ 45) * 255) with 8972014882652160. lia.
    + intros _. rewrite Z.compare_lt_iff in Ec.
      destruct e as [|k|k]; try lia.
      exists (Z.shiftl (Zpos m) (Zneg k)). split; [reflexivity|].
      rewrite (Hsh k eq_refl). split; [|reflexivity].
      split; [apply Z.div_pos; lia|].
      apply Z.div_lt_upper_bound; [lia|].
      rewrite Pos2Z.inj_pow.
      assert (2 ^ 46 <= 2 ^ Zpos k) by (apply Z.pow_le_mono_r; lia).
      lia.
Qed.


Lemma is_finite_spec x :
  is_finite x = true -> exists s, finite_sf s (Prim2SF x).
Proof.
  unfold is_finite, is_infinity. rewrite is_nan_spec, eqb_spec, abs_spec.
  change (Prim2SF infinity) with (S754_infinity false).
  destruct (Prim2SF x) as [s|s| |s m e]; simpl; try discriminate; intros _.
  - exists s. constructor.
  - exists s. constructor.
Qed.

Lemma SFmul_finite sa sb a b :
  finite_sf sa a -> finite_sf sb b -> rounded (xorb sa sb) (SFmul prec emax a b).
Proof.
  intros [|ma ea] [|mb eb]; simpl; try constructor.
  apply binary_round_aux_rounded. lia.
Qed.

Lemma rounded_not_nan s x : rounded s x -> x <> S754_nan.
Proof. intros [] ; discriminate. Qed.

Lemma mul_finite_not_nan x y :
  is_finite x = true -> is_finite y = true -> is_nan (x * y) = false.
Proof.
  intros Hx Hy. rewrite is_nan_spec, mul_spec.
  destruct (is_finite_spec x Hx) as [sa Ha], (is_finite_spec y Hy) as [sb Hb].
  pose proof (SFmul_finite sa sb _ _ Ha Hb) as H. unfold SF64mul.
  destruct H; reflexivity.
Qed.

(** A strictly positive product with a non-negative factor. *)
Lemma mul_pos_factor x y :
  (0 <=? x)%float = true -> (0 <? x * y)%float = true -> (0 <? y)%float = true.
Proof.
  rewrite leb_spec, !ltb_spec, mul_spec.
  change (Prim2SF 0) with (S754_zero false). unfold SF64mul.
  destruct (Prim2SF x) as [sx|sx| |sx mx ex], (Prim2SF y) as [sy|sy| |sy my ey];
    simpl; try discriminate; try (destruct sx; simpl; discriminate);
    try (destruct sx, sy; simpl; discriminate || reflexivity).
  destruct sx; try discriminate. intros _.
  pose proof (binary_round_aux_rounded (xorb false sy) (Zpos (mx * my)) (ex + ey) loc_Exact) as H.
  destruct H; [lia| | | ]; destruct sy; simpl; try discriminate; reflexivity.
Qed.

(** * The gain controller *)

(** The value of line 115/140 when the product is not a NaN. *)
Lemma scaled_value_cases e g :
  is_nan (e * g) = false ->
  exists v, scaled_value e g = Ok v /\ 0 <= v <= 255 /\
    (((e * g <=? 0)%float = true /\ v = 0) \/
     ((255 <=? e * g)%float = true /\ v = 255) \/
     ((0 <? e * g)%float = true /\ (e * g <? 255)%float = true /\
      v = Qfloor (float2Q (e * g)))).
Proof.
  intros Hn. unfold scaled_value.
  destruct (clip_byte_cases _ Hn) as [[H ->]|[[H ->]|(H0 & H1 & ->)]].
  - exists 0. repeat split; auto; lia.
  - exists 255. repeat split; auto; lia.
  - destruct (py_int_between _ H0 H1) as (v & Hv & Hb & Hf).
    exists v. repeat split; auto; lia.
Qed.

Lemma scaled_value_nan e g :
  is_nan (e * g) = true -> scaled_value e g = Raise ValueError.
Proof.
  intros Hn. unfold scaled_value, np_clip. rewrite !Hn.
  unfold py_int. rewrite is_nan_spec in Hn.
  destruct (Prim2SF (e * g)); try discriminate. reflexivity.
Qed.

Lemma scaled_value_not_pos e g :
  is_nan (e * g) = false -> (0 <? e * g)%float = false -> scaled_value e g = Ok 0.
Proof.
  intros Hn H0. unfold scaled_value, np_clip. rewrite Hn, H0. reflexivity.
Qed.

Lemma scaled_value_pos e g v :
  scaled_value e g = Ok v -> v <> 0 -> (0 <? e * g)%float = true.
Proof.
  intros Hs Hv. destruct (is_nan (e * g)) eqn:Hn.
  - rewrite scaled_value_nan in Hs by assumption. discriminate.
  - destruct (0 <? e * g)%float eqn:H0; [reflexivity|].
    rewrite scaled_value_not_pos in Hs by assumption. congruence.
Qed.

Lemma Z2float_60 : Z2float timerGainMaxHigh = 60%float.
Proof. vm_compute. reflexivity. Qed.

(** Lines 117-120 after line 116: both tests compare [val] with itself. *)
Lemma edge_tests_dead val :
  (val <? 205) && (205 <? val) = false /\ (val <? 195) && (195 <? val) = false.
Proof.
  split; apply andb_false_iff;
    destruct (Z.ltb_spec val 205), (Z.ltb_spec 205 val),
             (Z.ltb_spec val 195), (Z.ltb_spec 195 val); auto; lia.
Qed.

Lemma count_and_correct_decrement step st :
  gainTimer st < 2 ^ 51 ->
  count_and_correct timerGainMaxHigh (scaled_decrement step) st =
  (Ok tt, {| gain := if 60 <? gainTimer st + 1
                     then (gain st - step * (Z2float ((gainTimer st + 1) * 2) / 60))%float
                     else gain st;
             gainTimer := gainTimer st + 1; prevVal := prevVal st |}).
Proof.
  intros Ht.
  cbv beta iota delta [count_and_correct bind read set_gainTimer set_gain lift ret
                       gain gainTimer prevVal timerGainMaxHigh].
  destruct st as [g t p]. cbv beta iota delta [gain gainTimer prevVal] in *.
  destruct (Z.ltb_spec 60 (t + 1)); [|reflexivity].
  unfold scaled_decrement. rewrite py_float_small.
  - rewrite Z2float_60. reflexivity.
  - assert (2 ^ 53 = 4 * 2 ^ 51) by reflexivity. lia.
Qed.

Lemma count_and_correct_increment limit step st :
  count_and_correct limit (fixed_increment step) st =
  (Ok tt, {| gain := if limit <? gainTimer st + 1 then (gain st + step)%float else gain st;
             gainTimer := gainTimer st + 1; prevVal := prevVal st |}).
Proof.
  cbv beta iota delta [count_and_correct bind read set_gainTimer set_gain lift ret
                       gain gainTimer prevVal fixed_increment].
  destruct st as [g t p].
  destruct (limit <? t + 1); reflexivity.
Qed.

Lemma adaptive_branch_raise e st x :
  scaled_value e (gain st) = Raise x -> adaptive_branch e st = (Raise x, st).
Proof.
  intros Hs. destruct st as [g t p].
  cbv beta iota delta [adaptive_branch bind read lift gain] in *.
  rewrite Hs. reflexivity.
Qed.

Ltac split_on_val val :=
  repeat match goal with
         | |- context [?a <? val] => destruct (Z.ltb_spec a val)
         | |- context [val <? ?b] => destruct (Z.ltb_spec val b)
         end.

Lemma adaptive_branch_zone e st val z :
  scaled_value e (gain st) = Ok val -> gainTimer st < 2 ^ 51 ->
  in_zone z e val -> adaptive_branch e st = (Ok val, zone_update z val st).
Proof.
  intros Hs Ht Hz. destruct st as [g t p].
  destruct (edge_tests_dead val) as [E1 E2].
  cbv beta iota delta [adaptive_branch bind read lift set_prevVal gain gainTimer prevVal] in *.
  rewrite Hs. cbv beta iota. rewrite E1, E2. cbv beta iota delta [ret].
  destruct z; cbv beta iota delta [in_zone] in Hz.
  - split_on_val val; try lia.
    rewrite count_and_correct_decrement by assumption. reflexivity.
  - split_on_val val; try lia. cbv beta iota delta [andb].
    rewrite count_and_correct_decrement by assumption. reflexivity.
  - split_on_val val; try lia. cbv beta iota delta [andb].
    rewrite count_and_correct_increment. reflexivity.
  - destruct Hz as [He Hv]. rewrite He.
    split_on_val val; try lia. cbv beta iota delta [andb].
    rewrite count_and_correct_increment. reflexivity.
  - destruct Hz as (Q1 & Q2 & Q3 & Q4).
    destruct (50 <? e)%float; split_on_val val; try lia;
      cbv beta iota delta [andb]; reflexivity.
Qed.

Lemma in_zone_total e val : exists z, in_zone z e val.
Proof.
  destruct (Z_lt_dec 230 val); [exists HighHigh; assumption|].
  destruct (Z_lt_dec 205 val); [exists High; simpl; lia|].
  destruct (Z_lt_dec 80 val).
  - destruct (Z_lt_dec val 195); [exists Mid; simpl; lia|].
    exists Quiet. simpl. lia.
  - destruct (50 <? e)%float eqn:He.
    + exists LowAudible. simpl. split; [assumption | lia].
    + exists Quiet. simpl. repeat split; try lia. intros [H _]. congruence.
Qed.

Lemma in_zone_unique e val z z' : in_zone z e val -> in_zone z' e val -> z = z'.
Proof.
  destruct z, z'; simpl; intros H H'; try reflexivity; exfalso;
    try lia; tauto.
Qed.

Lemma bind_Ok {A B} (m : M A) (k : A -> M B) st b st' :
  bind m k st = (Ok b, st') ->
  exists a s, m st = (Ok a, s) /\ k a s = (Ok b, st').
Proof.
  unfold bind. destruct (m st) as [[a|x] s]; [eauto | discriminate].
Qed.

Lemma controller_value adaptiveGain e st v st' :
  controller adaptiveGain e st = (Ok v, st') -> scaled_value e (gain st) = Ok v.
Proof.
  destruct adaptiveGain; unfold controller, adaptive_branch, fixed_branch; intros H.
  - apply bind_Ok in H as (g & s1 & H1 & H). unfold read in H1.
    injection H1 as <- <-.
    apply bind_Ok in H as (val & s2 & H2 & H). unfold lift in H2.
    injection H2 as H2 <-.
    apply bind_Ok in H as (u1 & s3 & _ & H).
    apply bind_Ok in H as (prev & s4 & _ & H).
    apply bind_Ok in H as (u2 & s5 & _ & H).
    apply bind_Ok in H as (u3 & s6 & _ & H).
    unfold ret in H. congruence.
  - apply bind_Ok in H as (g & s1 & H1 & H). unfold read in H1.
    injection H1 as <- <-. unfold lift in H. congruence.
Qed.

(** With PyAudio's default, [exception_on_overflow=True], an overflowed
    read would raise; line 101 switches that off. *)
Lemma overflow_raises_by_default e w st :
  stream_read true (Frame e true w) st = (Raise IOError, st) /\
  stream_read false (Frame e true w) st = (Ok e, st).
Proof. split; reflexivity. Qed.

(** Whatever the controller returns fits in one byte. *)
Lemma controller_byte adaptiveGain e st v st' :
  controller adaptiveGain e st = (Ok v, st') -> to_bytes1 v = Ok v.
Proof.
  intros H. apply controller_value in H.
  destruct (is_nan (e * gain st)) eqn:Hn.
  - rewrite scaled_value_nan in H by assumption. discriminate.
  - destruct (scaled_value_cases _ _ Hn) as (v' & Hs & Hb & _).
    assert (v' = v) by congruence. subst v'.
    unfold to_bytes1.
    destruct (Z.leb_spec 0 v), (Z.leb_spec v 255); try lia. reflexivity.
Qed.

Lemma zero_times_finite g :
  is_finite g = true -> is_nan (0 * g) = false /\ (0 <? 0 * g)%float = false.
Proof.
  intros Hg. split.
  - apply mul_finite_not_nan; [reflexivity | assumption].
  - rewrite ltb_spec, mul_spec. change (Prim2SF 0) with (S754_zero false).
    destruct (is_finite_spec g Hg) as [s [|m e]]; reflexivity.
Qed.

(** One frame of energy 0 in adaptive mode. *)
Lemma silent_frame st :
  is_finite (gain st) = true ->
  adaptive_branch 0 st = (Ok 0, {| gain := gain st; gainTimer := 0; prevVal := 0 |}).
Proof.
  intros Hg. destruct (zero_times_finite _ Hg) as [Hn H0].
  pose proof (scaled_value_not_pos _ _ Hn H0) as Hs.
  destruct st as [g t p].
  cbv beta iota delta [adaptive_branch bind read lift set_prevVal gain gainTimer prevVal] in *.
  rewrite Hs. reflexivity.
Qed.

(** * The spectral analyzer *)

Lemma mask_CHUNK :
  mask CHUNK = false :: true :: true :: true :: true :: repeat false 508.
Proof. vm_compute. reflexivity. Qed.

Lemma bool_index_all_false {A} (a : list A) k : bool_index a (repeat false k) = [].
Proof.
  unfold bool_index. revert a. induction k as [|k IH]; intros [|x a]; simpl; auto.
Qed.


Lemma mask_as_bins n :
  mask n = map (fun i => in_band (bin_frequency n i)) (arange (n / 2 + 1)).
Proof. unfold mask, freqs, rfftfreq. now rewrite map_map. Qed.


(** * The claims *)

(** C1 (the code departs from the claim).  The edge tests of lines
    117-120 run after line 116 has stored [val] in [prevVal], so they
    compare [val] with itself: the previous output has no influence on
    the frame, and a crossing of 205 or 195 does not reset the timer.
    From the initial state, 100 frames in the mid zone (output 150)
    followed by one frame with output 240 leave the timer at 101 and cut
    the gain at once; 60 frames with output 240 followed by 61 frames
    with output 150 leave the timer at 121 and raise the gain at once. *)
Theorem edge_reset_ignores_previous_output :
  (forall e st p,
      let r := adaptive_branch e st in
      let r' := adaptive_branch e (with_prevVal p st) in
      fst r' = fst r /\ gain (snd r') = gain (snd r) /\
      gainTimer (snd r') = gainTimer (snd r)) /\
  run_state (run_loop true (repeat (Frame 25000 false true) 100 ++ [Frame 40000 false true])
               initial_state [])
  = {| gain := (0.006 - 0.0008 * (202 / 60))%float; gainTimer := 101; prevVal := 240 |} /\
  run_state (run_loop true (repeat (Frame 40000 false true) 60
                            ++ repeat (Frame 25000 false true) 61)
               initial_state [])
  = {| gain := (0.006 + 0.0005)%float; gainTimer := 121; prevVal := 150 |}.
Proof.
  split; [|split; vm_compute; reflexivity].
  intros e [g t q] p. unfold with_prevVal.
  cbv beta iota zeta delta [adaptive_branch bind read lift set_prevVal gain gainTimer prevVal].
  destruct (scaled_value e g) as [val|x]; cbv beta iota delta [fst snd gain gainTimer];
    auto.
Qed.

(** C2, counterexample.  Sixty-four frames of bass energy 1e6 from the
    initial state: the timer passes 60 while the output stays at 255, and
    the fourth decrement takes the gain below zero. *)
Lemma gain_turns_negative :
  let r := run_loop true (repeat (Frame 1000000 false true) 64) initial_state [] in
  run_status r = Running /\ (gain (run_state r) <? 0)%float = true.
Proof. vm_compute. split; reflexivity. Qed.

(** C2, as amended.  For a non-negative energy the gain is decremented
    (output above 205) only when it is strictly positive before the frame;
    a gain that is zero or negative gives output 0 (or a NaN product and
    [ValueError]) and is left unchanged or raised by 0.009, never lowered.
    Nothing keeps a decrement from overshooting zero. *)
Theorem gain_decreases_only_from_positive e st :
  (0 <=? e)%float = true ->
  let r := adaptive_branch e st in
  (forall v, fst r = Ok v -> 205 < v -> (0 <? gain st)%float = true) /\
  ((gain st <=? 0)%float = true ->
   (fst r = Ok 0 \/ fst r = Raise ValueError) /\
   (gain (snd r) = gain st \/ gain (snd r) = (gain st + 0.009)%float)).
Proof.
  intros He r. subst r. split.
  - intros v Hv Hlt.
    destruct (adaptive_branch e st) as [res st'] eqn:Hr.
    cbv beta iota delta [fst] in Hv. subst res.
    apply (controller_value true) in Hr.
    apply (mul_pos_factor e); [assumption|].
    apply (scaled_value_pos _ _ v); [assumption | lia].
  - intros Hg. apply leb_ltb_false in Hg.
    assert (H0 : (0 <? e * gain st)%float = false).
    { destruct (0 <? e * gain st)%float eqn:H; [|reflexivity].
      apply mul_pos_factor in H; [congruence | assumption]. }
    destruct (is_nan (e * gain st)) eqn:Hn.
    + rewrite (adaptive_branch_raise e st ValueError) by (now apply scaled_value_nan).
      cbv beta iota delta [fst snd]. auto.
    + pose proof (scaled_value_not_pos _ _ Hn H0) as Hs.
      destruct st as [g t p].
      cbv beta iota delta [adaptive_branch bind read lift set_prevVal gain gainTimer prevVal] in *.
      rewrite Hs. cbv beta iota.
      change (230 <? 0) with false. change ((205 <? 0) && (0 <? 231)) with false.
      change ((80 <? 0) && (0 <? 195)) with false.
      change ((0 <? 205) && (205 <? 0)) with false.
      change ((0 <? 195) && (195 <? 0)) with false.
      cbv beta iota delta [ret].
      destruct ((50 <? e)%float && (0 <? 81)).
      * rewrite count_and_correct_increment. cbv beta iota delta [fst snd gain gainTimer].
        destruct (timerGainMaxLow <? t + 1); auto.
      * cbv beta iota delta [set_gainTimer fst snd gain]. auto.
Qed.

(** C2, as amended, at the state the counterexample ends in: energy 1e6
    and a gain below zero. *)
Lemma gain_decreases_only_from_positive_witness :
  let st := run_state (run_loop true (repeat (Frame 1000000 false true) 64) initial_state []) in
  (0 <=? 1000000)%float = true /\
  let r := adaptive_branch 1000000 st in
  (forall v, fst r = Ok v -> 205 < v -> (0 <? gain st)%float = true) /\
  ((gain st <=? 0)%float = true ->
   (fst r = Ok 0 \/ fst r = Raise ValueError) /\
   (gain (snd r) = gain st \/ gain (snd r) = (gain st + 0.009)%float)).
Proof.
  split; [reflexivity|].
  apply (gain_decreases_only_from_positive 1000000
           (run_state (run_loop true (repeat (Frame 1000000 false true) 64) initial_state []))).
  reflexivity.
Defined.

(** C3.  In adaptive mode, once line 115 has produced [val] (and while
    the timer is one that [float()] converts, below 2^51), exactly one of
    the five zones applies to the frame, and the frame ends in the state
    that zone prescribes: timer incremented and, past 60, gain lowered by
    0.0008 * (timer*2/60) above 230 and by 0.0004 * (timer*2/60) in
    206..230; timer incremented and, past 120, gain raised by 0.0005 in
    81..194; timer incremented and, past 90, gain raised by 0.009 for
    energy above 50 and [val] at most 80; timer 0 and gain unchanged
    otherwise. *)
Theorem zone_classification e st val :
  scaled_value e (gain st) = Ok val -> gainTimer st < 2 ^ 51 ->
  (exists z, in_zone z e val /\ forall z', in_zone z' e val -> z' = z) /\
  (forall z, in_zone z e val -> adaptive_branch e st = (Ok val, zone_update z val st)).
Proof.
  intros Hs Ht. split.
  - destruct (in_zone_total e val) as [z Hz]. exists z. split; [assumption|].
    intros z' Hz'. exact (in_zone_unique e val z' z Hz' Hz).
  - intros z Hz. now apply adaptive_branch_zone.
Qed.

(** C3 at energy 40000, gain 0.006 and timer 60: output 240. *)
Lemma zone_classification_witness :
  (exists z, in_zone z 40000 240 /\ forall z', in_zone z' 40000 240 -> z' = z) /\
  (forall z, in_zone z 40000 240 ->
     adaptive_branch 40000 {| gain := 0.006; gainTimer := 60; prevVal := 0 |}
     = (Ok 240, zone_update z 240 {| gain := 0.006; gainTimer := 60; prevVal := 0 |})).
Proof.
  apply (zone_classification 40000 {| gain := 0.006; gainTimer := 60; prevVal := 0 |} 240).
  - vm_compute. reflexivity.
  - vm_compute. reflexivity.
Defined.

(** C4.  For a finite energy and a finite gain (in particular a
    non-negative energy and a positive gain) the controller returns, in
    both modes, an integer in 0..255, which [to_bytes] accepts.  In
    adaptive mode the timer is taken below 2^51, where [float()] cannot
    overflow. *)
Theorem output_byte_in_range adaptiveGain e st :
  is_finite e = true -> is_finite (gain st) = true -> gainTimer st < 2 ^ 51 ->
  exists v st',
    controller adaptiveGain e st = (Ok v, st') /\ 0 <= v <= 255 /\
    to_bytes1 v = Ok v.
Proof.
  intros He Hg Ht.
  destruct (scaled_value_cases e (gain st) (mul_finite_not_nan _ _ He Hg))
    as (v & Hs & Hb & _).
  assert (Hbytes : to_bytes1 v = Ok v).
  { unfold to_bytes1.
    destruct (Z.leb_spec 0 v), (Z.leb_spec v 255); try lia. reflexivity. }
  destruct adaptiveGain; unfold controller.
  - destruct (in_zone_total e v) as [z Hz].
    exists v, (zone_update z v st).
    rewrite (adaptive_branch_zone e st v z Hs Ht Hz). auto.
  - exists v, st. split; [|auto].
    cbv beta iota delta [fixed_branch bind read lift]. now rewrite Hs.
Qed.

(** C4 at energy 1e6 in the initial state, where the product is far
    above 255. *)
Lemma output_byte_in_range_witness :
  exists v st',
    controller true 1000000 initial_state = (Ok v, st') /\ 0 <= v <= 255 /\
    to_bytes1 v = Ok v.
Proof.
  apply (output_byte_in_range true 1000000 initial_state); [reflexivity | reflexivity |].
  vm_compute. reflexivity.
Defined.

(** C5, counterexample.  Energy 292 at the default gain: the product is
    1.752, the code yields 1, rounding to the nearest integer yields 2. *)
Lemma candidate_is_not_rounded :
  scaled_value 292 0.006 = Ok 1 /\ spec_candidate 292 0.006 = 2.
Proof. vm_compute. split; reflexivity. Qed.

(** C5, as amended.  In both modes the candidate is the product clamped
    to [0, 255] and then truncated: 0 for a product at most 0, 255 for a
    product of 255 or more, and the integer part (floor) of the product
    in between. *)
Theorem candidate_is_truncated adaptiveGain e st :
  is_nan (e * gain st) = false ->
  let x := (e * gain st)%float in
  exists v,
    scaled_value e (gain st) = Ok v /\
    (forall r st', controller adaptiveGain e st = (Ok r, st') -> r = v) /\
    (((x <=? 0)%float = true /\ v = 0) \/
     ((255 <=? x)%float = true /\ v = 255) \/
     ((0 <? x)%float = true /\ (x <? 255)%float = true /\ v = Qfloor (float2Q x))).
Proof.
  intros Hn x.
  destruct (scaled_value_cases e (gain st) Hn) as (v & Hs & _ & Hc).
  exists v. split; [assumption|]. split; [|exact Hc].
  intros r st' Hr. apply controller_value in Hr. congruence.
Qed.

(** C5, as amended, at energy 292 and the default gain. *)
Lemma candidate_is_truncated_witness :
  let x := (292 * 0.006)%float in
  exists v,
    scaled_value 292 0.006 = Ok v /\
    (forall r st', controller true 292 initial_state = (Ok r, st') -> r = v) /\
    (((x <=? 0)%float = true /\ v = 0) \/
     ((255 <=? x)%float = true /\ v = 255) \/
     ((0 <? x)%float = true /\ (x <? 255)%float = true /\ v = Qfloor (float2Q x))).
Proof.
  apply (candidate_is_truncated true 292 initial_state). reflexivity.
Defined.




(** C7.  On a run of frames of energy 0 (an all-zero frame has a zero
    spectrum) in adaptive mode, with a finite gain: every output is 0,
    every frame leaves the timer at 0, and the gain never changes. *)
Theorem silence_keeps_timer_and_gain n st sent :
  is_finite (gain st) = true ->
  adaptive_branch 0 st = (Ok 0, {| gain := gain st; gainTimer := 0; prevVal := 0 |}) /\
  run_loop true (repeat (Frame 0 false true) (S n)) st sent =
  {| run_status := Running;
     run_state := {| gain := gain st; gainTimer := 0; prevVal := 0 |};
     run_sent := sent ++ repeat 0 (S n) |}.
Proof.
  intros Hg. split; [now apply silent_frame|].
  assert (Hbody : forall s, is_finite (gain s) = true ->
            loop_body true (Frame 0 false true) s
            = (Ok 0, {| gain := gain s; gainTimer := 0; prevVal := 0 |})).
  { intros s Hs.
    cbv beta iota delta [loop_body stream_read controller bind ret].
    rewrite (silent_frame s Hs). reflexivity. }
  revert st sent Hg. induction n as [|n IH]; intros st sent Hg.
  - cbn [repeat run_loop]. rewrite (Hbody st Hg). reflexivity.
  - change (repeat (Frame 0 false true) (S (S n)))
      with (Frame 0 false true :: repeat (Frame 0 false true) (S n)).
    cbn [run_loop]. rewrite (Hbody st Hg).
    rewrite IH by exact Hg.
    change (repeat 0 (S (S n))) with (0 :: repeat 0 (S n)).
    rewrite <- app_assoc. reflexivity.
Qed.

(** C7 on three silent frames after 64 loud ones, when the timer stands
    at 64. *)
Lemma silence_keeps_timer_and_gain_witness :
  let st := run_state (run_loop true (repeat (Frame 1000000 false true) 64) initial_state []) in
  adaptive_branch 0 st = (Ok 0, {| gain := gain st; gainTimer := 0; prevVal := 0 |}) /\
  run_loop true (repeat (Frame 0 false true) 3) st [] =
  {| run_status := Running;
     run_state := {| gain := gain st; gainTimer := 0; prevVal := 0 |};
     run_sent := [] ++ repeat 0 3 |}.
Proof.
  apply (silence_keeps_timer_and_gain 2
           (run_state (run_loop true (repeat (Frame 1000000 false true) 64) initial_state []))
           []).
  reflexivity.
Defined.

(** C8, counterexample.  The serial write of the first frame fails: the
    [SerialException] is not caught, the loop is left, the byte is lost
    and the second frame is never read. *)
Lemma write_failure_ends_loop :
  run_loop true [Frame 40000 false false; Frame 40000 false true] initial_state [] =
  {| run_status := Crashed SerialException;
     run_state := {| gain := 0.006; gainTimer := 1; prevVal := 240 |};
     run_sent := [] |}.
Proof. vm_compute. reflexivity. Qed.

(** C8, as amended.  For a frame on which the controller yields [v]: a
    capture overflow never ends the loop, since line 101 reads with
    [exception_on_overflow=False]: the frame is processed as any other
    and, the write accepted, the loop goes on with the next frame; a
    failed serial write ends the loop with the uncaught
    [SerialException], the controller's update applied, the byte unsent
    and the later frames unread. *)
Theorem overflow_tolerated_write_failure_fatal adaptiveGain e ov evs st sent v st' :
  controller adaptiveGain e st = (Ok v, st') ->
  run_loop adaptiveGain (Frame e ov true :: evs) st sent
  = run_loop adaptiveGain evs st' (sent ++ [v]) /\
  run_loop adaptiveGain (Frame e ov false :: evs) st sent
  = {| run_status := Crashed SerialException; run_state := st'; run_sent := sent |}.
Proof.
  intros Hc. pose proof (controller_byte _ _ _ _ _ Hc) as Hb.
  split; cbn [run_loop];
    cbv beta iota delta [loop_body stream_read ser_write bind ret lift raise];
    rewrite Hc, Hb; reflexivity.
Qed.

(** C8, as amended, on two overflowed frames of energy 40000. *)
Lemma overflow_tolerated_write_failure_fatal_witness :
  let st' := {| gain := 0.006; gainTimer := 1; prevVal := 240 |} in
  run_loop true (Frame 40000 true true :: [Frame 40000 true true]) initial_state []
  = run_loop true [Frame 40000 true true] st' ([] ++ [240]) /\
  run_loop true (Frame 40000 true false :: [Frame 40000 true true]) initial_state []
  = {| run_status := Crashed SerialException; run_state := st'; run_sent := [] |}.
Proof.
  apply (overflow_tolerated_write_failure_fatal true 40000 true [Frame 40000 true true]
           initial_state [] 240 {| gain := 0.006; gainTimer := 1; prevVal := 240 |}).
  vm_compute. reflexivity.
Defined.

(** C9.  In fixed-gain mode a pass of the loop, whatever it meets and
    however it ends, leaves [gain], [gainTimer] (and [prevVal]) as they
    were. *)
Theorem fixed_gain_leaves_state ev st :
  snd (loop_body false ev st) = st.
Proof.
  destruct ev as [e ov w| | |e ov];
    cbv beta iota delta [loop_body stream_read ser_write controller fixed_branch
                         bind ret read lift raise];
    try reflexivity;
    (destruct (scaled_value e (gain st)) as [v|x]; [|reflexivity]);
    (destruct (to_bytes1 v) as [b|x]; [|reflexivity]).
  - destruct w; reflexivity.
  - reflexivity.
Qed.

(** C10.  With CHUNK = 1024, RATE = 44100 and the band 30..200 Hz the
    mask keeps exactly the bins 1, 2, 3 and 4, at 43.07, 86.13, 129.20 and
    172.27 Hz, so that the mean of line 111 is taken over four magnitudes
    for every frame, never over none. *)
Theorem bass_band_is_bins_1_to_4 :
  selected_bins CHUNK = [1; 2; 3; 4] /\
  bool_index (freqs CHUNK) (mask CHUNK)
  = [43.06640625; 86.1328125; 129.19921875; 172.265625]%float /\
  forall mag : list float,
    length mag = Z.to_nat (CHUNK / 2 + 1) ->
    exists a b c d, bool_index mag (mask CHUNK) = [a; b; c; d].
Proof.
  split; [vm_compute; reflexivity|]. split; [vm_compute; reflexivity|].
  intros mag Hlen. rewrite mask_CHUNK.
  destruct mag as [|x0 [|a [|b [|c [|d rest]]]]]; try discriminate.
  exists a, b, c, d.
  change (bool_index (x0 :: a :: b :: c :: d :: rest)
            (false :: true :: true :: true :: true :: repeat false 508))
    with (a :: b :: c :: d :: bool_index rest (repeat false 508)).
  now rewrite bool_index_all_false.
Qed.

(** C10 on the 513 bin frequencies themselves as the array indexed. *)
Lemma bass_band_is_bins_1_to_4_witness :
  exists a b c d, bool_index (freqs CHUNK) (mask CHUNK) = [a; b; c; d].
Proof.
  apply (proj2 (proj2 bass_band_is_bins_1_to_4) (freqs CHUNK)).
  vm_compute. reflexivity.
Defined.

(** * Further properties of the code *)

(** ** Start-up *)

(** X1.  [find_arduino] returns [None] exactly when no port of the list
    passes the test of lines 40-41 (in particular for an empty list). *)
Theorem find_arduino_none ports :
  find_arduino ports = None <-> Forall (fun port => is_arduino port = false) ports.
Proof.
  induction ports as [|port ports IH]; cbn [find_arduino].
  - split; [constructor | reflexivity].
  - destruct (is_arduino port) eqn:E.
    + split; [discriminate|]. intros H. inversion H; congruence.
    + rewrite IH. split; [now constructor | intros H; now inversion H].
Qed.

(** X2.  [find_arduino] returns a device exactly when the list has a port
    that passes the test; the device is that of the first such port, the
    later ones are not looked at. *)
Theorem find_arduino_first_match ports dev :
  find_arduino ports = Some dev <->
  exists before port after,
    ports = before ++ port :: after /\
    Forall (fun p => is_arduino p = false) before /\
    is_arduino port = true /\ device port = dev.
Proof.
  induction ports as [|port ports IH]; cbn [find_arduino].
  - split; [discriminate|]. intros (before & p & after & H & _). destruct before; discriminate.
  - destruct (is_arduino port) eqn:E.
    + split.
      * intros H. injection H as <-. exists [], port, ports. repeat split; auto.
      * intros (before & p & after & H & Hb & Hp & Hd).
        destruct before as [|q before]; cbn [app] in H; injection H as -> ->.
        -- now subst.
        -- inversion Hb; congruence.
    + rewrite IH. split.
      * intros (before & p & after & -> & Hb & Hp & Hd).
        exists (port :: before), p, after. repeat split; auto.
      * intros (before & p & after & H & Hb & Hp & Hd).
        destruct before as [|q before]; cbn [app] in H; injection H as -> ->.
        -- congruence.
        -- exists before, p, after. inversion Hb; auto.
Qed.

Lemma prefix_spec pat s :
  String.prefix pat s = true <-> exists post, s = (pat ++ post)%string.
Proof.
  revert s. induction pat as [|c pat IH]; intros s.
  - destruct s; cbn [String.prefix String.append]; split; eauto.
  - destruct s as [|d s]; cbn [String.prefix String.append].
    + split; [discriminate | intros [post H]; discriminate].
    + destruct (Ascii.ascii_dec c d) as [->|Hne].
      * rewrite IH. split; intros [post H]; exists post; congruence.
      * split; [discriminate|]. intros [post H]. congruence.
Qed.

(** [str_in] is the substring test. *)
Lemma str_in_spec pat s :
  str_in pat s = true <-> exists pre post, s = (pre ++ pat ++ post)%string.
Proof.
  induction s as [|d s IH]; cbn [str_in]; rewrite orb_true_iff, prefix_spec.
  - split.
    + intros [[post H]|H]; [|discriminate]. exists EmptyString, post. exact H.
    + intros (pre & post & H). left.
      destruct pre; [eauto | discriminate].
  - rewrite IH. split.
    + intros [[post H]|(pre & post & H)].
      * exists EmptyString, post. exact H.
      * exists (String d pre), post. cbn [String.append]. now rewrite H.
    + intros (pre & post & H). destruct pre as [|c pre]; cbn [String.append] in H.
      * left. eauto.
      * right. injection H as _ H. eauto.
Qed.

Lemma lower_app a b : lower (a ++ b) = (lower a ++ lower b)%string.
Proof. induction a as [|c a IH]; cbn [lower String.append]; congruence. Qed.

(** X3.  The test on [wchusbserial] goes through [device.lower()]: a port
    whose device name holds that word in any mix of cases is accepted,
    whatever its description and manufacturer. *)
Theorem device_match_ignores_case port pre w post :
  lower w = "wchusbserial"%string ->
  device port = (pre ++ w ++ post)%string ->
  is_arduino port = true.
Proof.
  intros Hw Hd. unfold is_arduino.
  assert (H : str_in "wchusbserial" (lower (device port)) = true).
  { apply str_in_spec. exists (lower pre), (lower post).
    now rewrite Hd, !lower_app, Hw. }
  rewrite H. now rewrite orb_true_r.
Qed.

(** X3 on a macOS device name of a CH340 clone. *)
Lemma device_match_ignores_case_witness :
  is_arduino {| device := "/dev/cu.WCHUSBSerial1410"; description := "n/a";
                manufacturer := None |} = true.
Proof.
  apply (device_match_ignores_case
           {| device := "/dev/cu.WCHUSBSerial1410"; description := "n/a";
              manufacturer := None |}
           "/dev/cu." "WCHUSBSerial" "1410"); reflexivity.
Defined.

Lemma ascii_upper_Y c : ascii_upper c = "Y"%char -> c = "y"%char \/ c = "Y"%char.
Proof.
  destruct c as [[] [] [] [] [] [] [] []]; vm_compute; intros H;
    first [discriminate | now left | now right].
Qed.

Lemma lower_empty s : lower s = EmptyString -> s = EmptyString.
Proof. destruct s; [reflexivity | discriminate]. Qed.

(** X4.  Line 81 selects adaptive gain exactly for the answers [y] and
    [Y]; every other answer (the empty one, [yes], one with a blank)
    selects the fixed gain. *)
Theorem adaptive_mode_needs_y answer :
  adaptiveGain_answer answer = true <-> answer = "y"%string \/ answer = "Y"%string.
Proof.
  unfold adaptiveGain_answer. rewrite String.eqb_eq. split.
  - destruct answer as [|c s]; cbn [capitalize]; [discriminate|].
    intros H. injection H as Hc Hs. apply lower_empty in Hs. subst s.
    destruct (ascii_upper_Y c Hc) as [-> | ->]; auto.
  - intros [-> | ->]; reflexivity.
Qed.

(** ** Controller and driver loop *)

(** The candidate of lines 115/140 is a byte unless the product is a NaN. *)
Lemma scaled_value_total e g :
  (is_nan (e * g) = true /\ scaled_value e g = Raise ValueError) \/
  (is_nan (e * g) = false /\ exists v, scaled_value e g = Ok v /\ 0 <= v <= 255).
Proof.
  destruct (is_nan (e * g)) eqn:Hn.
  - left. split; [reflexivity | now apply scaled_value_nan].
  - right. split; [reflexivity|].
    destruct (scaled_value_cases e g Hn) as (v & Hs & Hb & _). eauto.
Qed.

Lemma py_float_raise z x : py_float z = Raise x -> x = OverflowError /\ ~ 0 <= z < 2 ^ 53.
Proof.
  intros H. split.
  - unfold py_float in H. destruct (Z2SF z); congruence.
  - intros Hz. rewrite py_float_small in H by assumption. discriminate.
Qed.

(** What [count_and_correct] does to the state, whatever [adjust] is. *)
Lemma count_and_correct_state limit adjust st :
  let r := count_and_correct limit adjust st in
  gainTimer (snd r) = gainTimer st + 1 /\ prevVal (snd r) = prevVal st /\
  (gainTimer st + 1 <= limit -> fst r = Ok tt /\ gain (snd r) = gain st) /\
  (forall x, fst r = Raise x ->
     limit < gainTimer st + 1 /\ adjust (gainTimer st + 1) (gain st) = Raise x /\
     gain (snd r) = gain st).
Proof.
  destruct st as [g t p].
  cbv beta iota zeta delta [count_and_correct bind read set_gainTimer set_gain lift ret
                            gain gainTimer prevVal].
  destruct (Z.ltb_spec limit (t + 1)) as [Hl|Hl].
  - destruct (adjust (t + 1) g) as [g'|x] eqn:Ha;
      cbv beta iota delta [fst snd gain gainTimer prevVal];
      (split; [reflexivity|]); (split; [reflexivity|]); (split; [lia|]).
    + intros x' Hx. discriminate.
    + intros x' Hx. injection Hx as <-. auto.
  - cbv beta iota delta [fst snd gain gainTimer prevVal].
    split; [reflexivity|]. split; [reflexivity|]. split; [auto|].
    intros x Hx. discriminate.
Qed.

Lemma scaled_decrement_raise step t g x :
  scaled_decrement step t g = Raise x -> 60 < t -> x = OverflowError /\ 2 ^ 52 <= t.
Proof.
  unfold scaled_decrement. intros H Ht.
  destruct (py_float (t * 2)) as [f|y] eqn:Hf; [discriminate|].
  injection H as <-. apply py_float_raise in Hf as [-> Hz]. split; [reflexivity|].
  assert (2 ^ 53 = 2 * 2 ^ 52) by reflexivity. lia.
Qed.

(** What a frame of the adaptive branch does once line 115 has yielded
    [v], without a bound on the timer. *)
Lemma adaptive_branch_shape e st v :
  scaled_value e (gain st) = Ok v ->
  let r := adaptive_branch e st in
  prevVal (snd r) = v /\
  (gainTimer (snd r) = gainTimer st + 1 \/ gainTimer (snd r) = 0) /\
  (fst r = Ok v \/
   (fst r = Raise OverflowError /\ 205 < v /\ 2 ^ 52 <= gainTimer st + 1 /\
    gain (snd r) = gain st)) /\
  (gainTimer st < 60 -> fst r = Ok v /\ gain (snd r) = gain st).
Proof.
  intros Hs. destruct st as [g t p].
  destruct (edge_tests_dead v) as [E1 E2].
  cbv beta iota zeta delta [adaptive_branch bind read lift set_prevVal gain gainTimer prevVal] in *.
  rewrite Hs. cbv beta iota. rewrite E1, E2. cbv beta iota delta [ret].
  assert (Hdec : forall step,
    205 < v ->
    let r := match count_and_correct timerGainMaxHigh (scaled_decrement step)
                     {| gain := g; gainTimer := t; prevVal := v |} with
             | (Ok _, st') => (Ok v, st')
             | (Raise x, st') => (Raise x, st')
             end in
    prevVal (snd r) = v /\
    (gainTimer (snd r) = t + 1 \/ gainTimer (snd r) = 0) /\
    (fst r = Ok v \/
     (fst r = Raise OverflowError /\ 205 < v /\ 2 ^ 52 <= t + 1 /\ gain (snd r) = g)) /\
    (t < 60 -> fst r = Ok v /\ gain (snd r) = g)).
  { intros step Hv.
    pose proof (count_and_correct_state timerGainMaxHigh (scaled_decrement step)
                  {| gain := g; gainTimer := t; prevVal := v |}) as H.
    cbv beta iota zeta delta [gain gainTimer prevVal timerGainMaxHigh] in H.
    destruct (count_and_correct _ _ _) as [[[]|x] s];
      cbv beta iota zeta delta [fst snd] in *;
      destruct H as (Ht & Hp & Hle & Hr).
    - split; [assumption|]. split; [left; assumption|]. split; [left; reflexivity|].
      intros Hlt. split; [reflexivity|]. apply Hle. lia.
    - destruct (Hr x eq_refl) as (Hl & Ha & Hg).
      apply scaled_decrement_raise in Ha as [-> Hbig]; [|assumption].
      split; [assumption|]. split; [left; assumption|]. split; [right; auto|].
      intros Hlt. lia. }
  assert (Hinc : forall limit step,
    60 <= limit ->
    let r := match count_and_correct limit (fixed_increment step)
                     {| gain := g; gainTimer := t; prevVal := v |} with
             | (Ok _, st') => (Ok v, st')
             | (Raise x, st') => (Raise x, st')
             end in
    prevVal (snd r) = v /\
    (gainTimer (snd r) = t + 1 \/ gainTimer (snd r) = 0) /\
    (fst r = Ok v \/
     (fst r = Raise OverflowError /\ 205 < v /\ 2 ^ 52 <= t + 1 /\ gain (snd r) = g)) /\
    (t < 60 -> fst r = Ok v /\ gain (snd r) = g)).
  { intros limit step Hlim.
    pose proof (count_and_correct_state limit (fixed_increment step)
                  {| gain := g; gainTimer := t; prevVal := v |}) as H.
    cbv beta iota zeta delta [gain gainTimer prevVal] in H.
    destruct (count_and_correct _ _ _) as [[[]|x] s];
      cbv beta iota zeta delta [fst snd] in *;
      destruct H as (Ht & Hp & Hle & Hr).
    - split; [assumption|]. split; [left; assumption|]. split; [left; reflexivity|].
      intros Hlt. split; [reflexivity|]. apply Hle. lia.
    - destruct (Hr x eq_refl) as (_ & Ha & _). discriminate. }
  destruct (Z.ltb_spec 230 v) as [H1|H1]; [apply Hdec; lia|].
  destruct ((205 <? v) && (v <? 231)) eqn:H2.
  { apply Hdec. apply andb_true_iff in H2 as [H2 _]. apply Z.ltb_lt in H2. lia. }
  destruct ((80 <? v) && (v <? 195)).
  { apply (Hinc timerGainMaxMid). unfold timerGainMaxMid. lia. }
  destruct ((50 <? e)%float && (v <? 81)).
  { apply (Hinc timerGainMaxLow). unfold timerGainMaxLow. lia. }
  cbv beta iota zeta delta [set_gainTimer fst snd gain gainTimer prevVal]. auto.
Qed.

(** The outcomes of one pass of the loop. *)
Lemma loop_body_frame adaptiveGain e ov w st :
  let c := controller adaptiveGain e st in
  match fst c with
  | Ok v => 0 <= v <= 255 /\
            loop_body adaptiveGain (Frame e ov w) st
            = (if w then Ok v else Raise SerialException, snd c)
  | Raise x => loop_body adaptiveGain (Frame e ov w) st = (Raise x, snd c)
  end.
Proof.
  cbv beta iota zeta delta [loop_body stream_read ser_write bind ret lift raise].
  destruct (controller adaptiveGain e st) as [[v|x] st'] eqn:Hc;
    cbv beta iota delta [fst snd]; [|reflexivity].
  pose proof (controller_byte _ _ _ _ _ Hc) as Hb. rewrite Hb.
  split; [|destruct w; reflexivity].
  unfold to_bytes1 in Hb.
  destruct (Z.leb_spec 0 v), (Z.leb_spec v 255); cbv beta iota delta [andb] in Hb;
    try discriminate. lia.
Qed.

Lemma controller_state adaptiveGain e st :
  let c := controller adaptiveGain e st in
  (gainTimer (snd c) = gainTimer st \/ gainTimer (snd c) = gainTimer st + 1 \/
   gainTimer (snd c) = 0) /\
  (forall x, fst c = Raise x ->
     (x = ValueError /\ is_nan (e * gain st) = true /\ snd c = st) \/
     (x = OverflowError /\ adaptiveGain = true /\ 2 ^ 52 <= gainTimer st + 1)).
Proof.
  destruct adaptiveGain; unfold controller.
  - destruct (scaled_value_total e (gain st)) as [[Hn Hs]|[Hn (v & Hs & Hb)]].
    + rewrite (adaptive_branch_raise _ _ _ Hs). cbv beta iota zeta delta [fst snd].
      split; [auto|]. intros x Hx. injection Hx as <-. auto.
    + destruct (adaptive_branch_shape e st v Hs) as (_ & Ht & Hr & _).
      cbv zeta. split; [tauto|].
      intros x Hx. destruct Hr as [Hr|(Hr & _ & Hbig & _)]; [congruence|].
      right. split; [congruence | auto].
  - cbv beta iota zeta delta [fixed_branch bind read lift fst snd].
    split; [auto|].
    destruct (scaled_value_total e (gain st)) as [[Hn Hs]|[Hn (v & Hs & Hb)]];
      rewrite Hs; intros x Hx; [|discriminate].
    injection Hx as <-. auto.
Qed.

(** One pass of the loop, whatever it meets: the timer moves by one step
    at most, a byte that is written is in 0..255, and [OverflowError] can
    only come from [float()] at a huge timer. *)
Lemma loop_body_outcome adaptiveGain ev st :
  let r := loop_body adaptiveGain ev st in
  (gainTimer (snd r) = gainTimer st \/ gainTimer (snd r) = gainTimer st + 1 \/
   gainTimer (snd r) = 0) /\
  (forall b, fst r = Ok b -> 0 <= b <= 255) /\
  (fst r = Raise OverflowError -> 2 ^ 52 <= gainTimer st + 1).
Proof.
  assert (Hframe : forall e (k : Z -> M Z),
            (forall b s, k b s = (Ok b, s) \/ exists x, x <> OverflowError /\ k b s = (Raise x, s)) ->
            let r := bind (controller adaptiveGain e)
                          (fun val => bind (lift (to_bytes1 val)) k) st in
            (gainTimer (snd r) = gainTimer st \/ gainTimer (snd r) = gainTimer st + 1 \/
             gainTimer (snd r) = 0) /\
            (forall b, fst r = Ok b -> 0 <= b <= 255) /\
            (fst r = Raise OverflowError -> 2 ^ 52 <= gainTimer st + 1)).
  { intros e k Hk. cbv zeta.
    destruct (controller_state adaptiveGain e st) as [Ht Hx]. cbv zeta in Ht, Hx.
    pose proof (loop_body_frame adaptiveGain e false true st) as Hf. cbv zeta in Hf.
    cbv beta iota delta [bind lift].
    destruct (controller adaptiveGain e st) as [[v|x] st1] eqn:Hc;
      cbv beta iota delta [fst snd] in *.
    - destruct Hf as [Hv _]. rewrite (controller_byte _ _ _ _ _ Hc).
      destruct (Hk v st1) as [-> | (x & Hne & ->)]; cbv beta iota delta [fst snd].
      + split; [exact Ht|]. split; [intros b Hb; injection Hb as <-; exact Hv|].
        discriminate.
      + split; [exact Ht|]. split; [discriminate|]. intros H. congruence.
    - split; [exact Ht|]. split; [discriminate|].
      intros H. injection H as ->.
      destruct (Hx OverflowError eq_refl) as [(H & _)|(_ & _ & H)]; [discriminate | exact H]. }
  destruct ev as [e ov w| | |e ov];
    cbv beta iota zeta delta [loop_body stream_read ser_write].
  - change (bind (ret e) ?f) with (fun s => f e s). cbv beta.
    apply (Hframe e). intros b s. destruct w; cbv beta iota delta [ret raise].
    + left. reflexivity.
    + right. exists SerialException. split; [discriminate | reflexivity].
  - cbv beta iota delta [bind raise fst snd].
    split; [auto|]. split; discriminate.
  - cbv beta iota delta [bind raise fst snd].
    split; [auto|]. split; discriminate.
  - change (bind (ret e) ?f) with (fun s => f e s). cbv beta.
    apply (Hframe e). intros b s. cbv beta iota delta [raise].
    right. exists KeyboardInterrupt. split; [discriminate | reflexivity].
Qed.

(** X5.  The three outcomes of the controller, in both modes: a value in
    0..255; [ValueError] when the product energy * gain is a NaN, with the
    state untouched; [OverflowError] from [float(gainTimer*2)], only in
    adaptive mode and only for a timer of 2^52 - 1 or more. *)
Theorem controller_outcomes adaptiveGain e st :
  let c := controller adaptiveGain e st in
  (exists v, fst c = Ok v /\ 0 <= v <= 255) \/
  (fst c = Raise ValueError /\ is_nan (e * gain st) = true /\ snd c = st) \/
  (fst c = Raise OverflowError /\ adaptiveGain = true /\ 2 ^ 52 <= gainTimer st + 1).
Proof.
  cbv zeta. destruct (controller_state adaptiveGain e st) as [_ H]. cbv zeta in H.
  pose proof (loop_body_frame adaptiveGain e false true st) as Hf. cbv zeta in Hf.
  destruct (fst (controller adaptiveGain e st)) as [v|x].
  - left. exists v. split; [reflexivity | apply Hf].
  - right. destruct (H x eq_refl) as [(-> & Hn & Hs)|(-> & Ha & Hb)]; auto.
Qed.

(** X6.  While the timer is below 60 no frame changes the gain, whatever
    its energy and however it ends. *)
Theorem gain_is_held_for_sixty_frames e st :
  gainTimer st < 60 -> gain (snd (adaptive_branch e st)) = gain st.
Proof.
  intros Ht.
  destruct (scaled_value_total e (gain st)) as [[Hn Hs]|[Hn (v & Hs & Hb)]].
  - now rewrite (adaptive_branch_raise _ _ _ Hs).
  - destruct (adaptive_branch_shape e st v Hs) as (_ & _ & _ & H). now apply H.
Qed.

(** X6 on the first frame, at energy 1e6. *)
Lemma gain_is_held_for_sixty_frames_witness :
  gain (snd (adaptive_branch 1000000 initial_state)) = gain initial_state.
Proof.
  apply (gain_is_held_for_sixty_frames 1000000 initial_state). reflexivity.
Defined.

(** X7.  The timer never goes negative and grows by at most one per
    frame, in every run and however the run ends. *)
Theorem timer_counts_at_most_the_frames adaptiveGain evs st sent :
  0 <= gainTimer st ->
  let r := run_loop adaptiveGain evs st sent in
  0 <= gainTimer (run_state r) <= gainTimer st + Z.of_nat (List.length evs).
Proof.
  revert st sent. induction evs as [|ev evs IH]; intros st sent Ht; cbn [run_loop].
  - cbn [run_state List.length]. lia.
  - destruct (loop_body_outcome adaptiveGain ev st) as (Hstep & _ & _). cbv zeta in Hstep.
    destruct (loop_body adaptiveGain ev st) as [[b|x] st1]; cbv beta iota delta [snd] in Hstep.
    + assert (Ht1 : 0 <= gainTimer st1) by lia.
      specialize (IH st1 (sent ++ [b]) Ht1). cbv zeta in IH.
      cbn [List.length]. lia.
    + cbn [List.length]. destruct x; cbn [run_state]; lia.
Qed.

(** X7 on 64 frames of energy 1e6. *)
Lemma timer_counts_at_most_the_frames_witness :
  let r := run_loop true (repeat (Frame 1000000 false true) 64) initial_state [] in
  0 <= gainTimer (run_state r)
  <= gainTimer initial_state + Z.of_nat (List.length (repeat (Frame 1000000 false true) 64)).
Proof.
  apply (timer_counts_at_most_the_frames true (repeat (Frame 1000000 false true) 64)
           initial_state []).
  vm_compute. discriminate.
Defined.

(** X9.  The bytes written only grow, each new one is in 0..255, there is
    at most one per event, and one per event exactly when the loop is
    still running. *)
Theorem every_byte_sent_is_a_byte adaptiveGain evs st sent :
  let r := run_loop adaptiveGain evs st sent in
  exists new,
    run_sent r = sent ++ new /\
    Forall (fun b => 0 <= b <= 255) new /\
    (List.length new <= List.length evs)%nat /\
    (run_status r = Running <-> List.length new = List.length evs).
Proof.
  revert st sent. induction evs as [|ev evs IH]; intros st sent; cbn [run_loop].
  - exists []. cbn [run_sent run_status List.length]. rewrite app_nil_r.
    repeat split; auto.
  - assert (Hb : forall b st1, loop_body adaptiveGain ev st = (Ok b, st1) -> 0 <= b <= 255).
    { intros b st1 H. destruct (loop_body_outcome adaptiveGain ev st) as (_ & Hbyte & _).
      cbv zeta in Hbyte. apply Hbyte. now rewrite H. }
    destruct (loop_body adaptiveGain ev st) as [[b|x] st1].
    + destruct (IH st1 (sent ++ [b])) as (new & Hs & Hf & Hl & Hr).
      exists (b :: new). cbn [List.length]. rewrite Hs, <- app_assoc.
      split; [reflexivity|]. split; [constructor; eauto|]. split; [lia|].
      rewrite Hr. lia.
    + exists []. rewrite app_nil_r. cbn [List.length].
      assert (Hst : run_status (match x with
                                | KeyboardInterrupt => mkRun Stopped st1 sent
                                | _ => mkRun (Crashed x) st1 sent end) <> Running)
        by (destruct x; discriminate).
      assert (Hse : run_sent (match x with
                              | KeyboardInterrupt => mkRun Stopped st1 sent
                              | _ => mkRun (Crashed x) st1 sent end) = sent)
        by (destruct x; reflexivity).
      split; [exact Hse|]. split; [constructor|]. split; [lia|].
      split; [intros H; contradiction | discriminate].
Qed.

(** X11.  A frame whose product energy * gain is a NaN (a NaN energy, as
    the mean over an empty band would be, or 0 times an infinity) ends
    the loop with the uncaught [ValueError] of [int()], in both modes,
    with the state untouched and nothing written. *)
Theorem nan_product_ends_the_loop adaptiveGain e ov w evs st sent :
  is_nan (e * gain st) = true ->
  run_loop adaptiveGain (Frame e ov w :: evs) st sent =
  {| run_status := Crashed ValueError; run_state := st; run_sent := sent |}.
Proof.
  intros Hn. pose proof (scaled_value_nan _ _ Hn) as Hs.
  pose proof (loop_body_frame adaptiveGain e ov w st) as Hf. cbv zeta in Hf.
  assert (Hc : controller adaptiveGain e st = (Raise ValueError, st)).
  { destruct adaptiveGain; unfold controller.
    - now apply adaptive_branch_raise.
    - cbv beta iota delta [fixed_branch bind read lift]. now rewrite Hs. }
  rewrite Hc in Hf. cbv beta iota delta [fst snd] in Hf.
  cbn [run_loop]. rewrite Hf. reflexivity.
Qed.

(** X11 on a NaN energy in the initial state. *)
Lemma nan_product_ends_the_loop_witness :
  run_loop true (Frame nan false true :: [Frame 40000 false true]) initial_state [] =
  {| run_status := Crashed ValueError; run_state := initial_state; run_sent := [] |}.
Proof.
  apply (nan_product_ends_the_loop true nan false true [Frame 40000 false true]
           initial_state []).
  reflexivity.
Defined.

(** X12.  In a run of fewer than 2^51 events from a non-negative timer
    the loop never ends with [OverflowError]: [float(gainTimer*2)],
    [int(...)] and [val.to_bytes(1, ...)] do not raise it, whatever the
    energies and whatever else the passes meet. *)
Theorem loop_never_ends_by_overflow_error adaptiveGain evs st sent :
  0 <= gainTimer st -> gainTimer st + Z.of_nat (List.length evs) < 2 ^ 51 ->
  run_status (run_loop adaptiveGain evs st sent) <> Crashed OverflowError.
Proof.
  revert st sent. induction evs as [|ev evs IH]; intros st sent Ht Hlen; cbn [run_loop].
  - discriminate.
  - cbn [List.length] in Hlen.
    destruct (loop_body_outcome adaptiveGain ev st) as (Hstep & _ & Hov).
    cbv zeta in Hstep, Hov.
    destruct (loop_body adaptiveGain ev st) as [[b|x] st1];
      cbv beta iota delta [fst snd] in Hstep, Hov.
    + apply IH; lia.
    + assert (Hx : x <> OverflowError).
      { intros ->. specialize (Hov eq_refl).
        assert (2 ^ 52 = 2 * 2 ^ 51) by reflexivity. lia. }
      destruct x; cbn [run_status]; congruence.
Qed.

(** X12 on 95 loud frames followed by a failed write. *)
Lemma loop_never_ends_by_overflow_error_witness :
  run_status (run_loop true (repeat (Frame 1000000 false true) 95
                             ++ [Frame 40000 false false]) initial_state [])
  <> Crashed OverflowError.
Proof.
  apply (loop_never_ends_by_overflow_error true
           (repeat (Frame 1000000 false true) 95 ++ [Frame 40000 false false])
           initial_state []).
  - vm_compute. discriminate.
  - vm_compute. reflexivity.
Defined.

(** X13.  In fixed-gain mode a whole run leaves the state as it was, and
    in a run that is still running every frame was answered with the byte
    [int(clip(energy * gain, 0, 255))] of its own energy and the one gain. *)
Theorem fixed_gain_run_is_memoryless evs st sent :
  let r := run_loop false evs st sent in
  run_state r = st /\
  (run_status r = Running ->
   exists bytes,
     run_sent r = sent ++ bytes /\
     Forall2 (fun ev b => exists e ov, ev = Frame e ov true /\
                                       scaled_value e (gain st) = Ok b) evs bytes).
Proof.
  revert sent. induction evs as [|ev evs IH]; intros sent; cbn [run_loop].
  - split; [reflexivity|]. intros _. exists []. rewrite app_nil_r. split; [reflexivity|constructor].
  - assert (Hstate : snd (loop_body false ev st) = st).
    { destruct ev as [e ov w| | |e ov];
        cbv beta iota delta [loop_body stream_read ser_write controller fixed_branch
                             bind ret read lift raise];
        try reflexivity;
        (destruct (scaled_value e (gain st)) as [v|x]; [|reflexivity]);
        (destruct (to_bytes1 v) as [b|x]; [|reflexivity]);
        [destruct w|]; reflexivity. }
    assert (Hbyte : forall b st1, loop_body false ev st = (Ok b, st1) ->
              exists e ov, ev = Frame e ov true /\ scaled_value e (gain st) = Ok b).
    { intros b st1. destruct ev as [e ov w| | |e ov];
        cbv beta iota delta [loop_body stream_read ser_write controller fixed_branch
                             bind ret read lift raise];
        try discriminate;
        destruct (scaled_value e (gain st)) as [v|x] eqn:Hs; try discriminate;
        pose proof (controller_byte false e st v st) as Hv;
        cbv beta iota delta [controller fixed_branch bind read lift] in Hv;
        rewrite Hs in Hv; rewrite (Hv eq_refl); [|discriminate].
      destruct w; [|discriminate]. intros H. injection H as <- _. eauto. }
    destruct (loop_body false ev st) as [[b|x] st1]; cbv beta iota delta [snd] in Hstate;
      subst st1.
    + destruct (IH (sent ++ [b])) as [IH1 IH2]. split; [exact IH1|].
      intros Hr. destruct (IH2 Hr) as (bytes & Hsent & Hall).
      exists (b :: bytes). rewrite Hsent, <- app_assoc. split; [reflexivity|].
      constructor; [exact (Hbyte b st eq_refl) | assumption].
    + split; [destruct x; reflexivity | destruct x; discriminate].
Qed.

(** X14.  A gain that has fallen to zero or below is not stuck: with the
    timer at 90 or more, a frame of finite energy above 50 outputs 0 and
    raises the gain by 0.009. *)
Theorem non_positive_gain_recovers e st :
  (50 <? e)%float = true -> is_finite e = true -> is_finite (gain st) = true ->
  (gain st <=? 0)%float = true -> 90 <= gainTimer st < 2 ^ 51 ->
  adaptive_branch e st =
  (Ok 0, {| gain := (gain st + 0.009)%float; gainTimer := gainTimer st + 1; prevVal := 0 |}).
Proof.
  intros He Hfe Hfg Hg Ht.
  assert (H0 : (0 <? e * gain st)%float = false).
  { destruct (0 <? e * gain st)%float eqn:H; [|reflexivity].
    apply mul_pos_factor in H.
    - apply leb_ltb_false in Hg. congruence.
    - rewrite leb_spec. rewrite ltb_spec in He.
      change (Prim2SF 50) with (S754_finite false 7036874417766400 (-47)) in He.
      change (Prim2SF 0) with (S754_zero false).
      destruct (Prim2SF e) as [s|s| |s m x]; try discriminate;
        destruct s; try discriminate; reflexivity. }
  pose proof (scaled_value_not_pos _ _ (mul_finite_not_nan _ _ Hfe Hfg) H0) as Hs.
  rewrite (adaptive_branch_zone e st 0 LowAudible Hs (proj2 Ht)).
  - cbv beta iota zeta delta [zone_update].
    replace (90 <? gainTimer st + 1) with true; [reflexivity|].
    symmetry. apply Z.ltb_lt. lia.
  - cbv beta iota delta [in_zone]. split; [assumption | lia].
Qed.

(** X14 at gain -0.001 and timer 90. *)
Lemma non_positive_gain_recovers_witness :
  adaptive_branch 1000000 {| gain := (-0.001)%float; gainTimer := 90; prevVal := 0 |} =
  (Ok 0, {| gain := (-0.001 + 0.009)%float; gainTimer := 90 + 1; prevVal := 0 |}).
Proof.
  apply (non_positive_gain_recovers 1000000
           {| gain := (-0.001)%float; gainTimer := 90; prevVal := 0 |});
    try reflexivity.
  vm_compute. split; [discriminate | reflexivity].
Defined.

(** ** The band mask *)

Lemma arange_pos k : 0 < k -> exists tl, arange k = 0 :: tl.
Proof.
  intros Hk. unfold arange.
  destruct (Z.to_nat k) as [|n] eqn:E; [lia|].
  cbn [seq map]. eauto.
Qed.

Lemma zero_bin_out_of_band v : in_band (Z2float 0 * v) = false.
Proof.
  unfold in_band. apply andb_false_iff. left.
  rewrite leb_spec, mul_spec.
  change (Prim2SF (Z2float BASS_LOW)) with (S754_finite false 8444249301319680 (-48)).
  change (Prim2SF (Z2float 0)) with (S754_zero false).
  destruct (Prim2SF v) as [s|s| |s m e]; reflexivity.
Qed.

(** X15.  For every frame length above 0 the mask has one entry per
    rfft bin (n/2 + 1 of them), and the entry of bin 0, the DC component,
    is false. *)
Theorem dc_bin_is_never_selected n :
  0 < n ->
  List.length (mask n) = Z.to_nat (n / 2 + 1) /\
  exists rest, mask n = false :: rest.
Proof.
  intros Hn. split.
  - unfold mask, freqs, rfftfreq, arange. now rewrite !length_map, length_seq.
  - rewrite mask_as_bins.
    destruct (arange_pos (n / 2 + 1)) as [tl ->].
    { assert (0 <= n / 2) by (apply Z.div_pos; lia). lia. }
    cbn [map]. unfold bin_frequency. rewrite zero_bin_out_of_band. eauto.
Qed.

(** X15 at the configured frame length. *)
Lemma dc_bin_is_never_selected_witness :
  List.length (mask CHUNK) = Z.to_nat (CHUNK / 2 + 1) /\
  exists rest, mask CHUNK = false :: rest.
Proof. apply (dc_bin_is_never_selected CHUNK). reflexivity. Defined.
